(** * lars::Visitor — dispatch over inheritance lists and [visitor_cast]

    A shallow embedding of [include/lars/visitor.h]: the visitor prototype
    with its capability lookup, the two [visit] algorithms (plain and
    recursive), the visitable class templates with their inheritance lists,
    and the visitor cast.  Handlers are caller code: they run in a small
    state-and-exception monad, so a handler may change the caller's state,
    answer a boolean (recursive visitors) or throw. *)

From Stdlib Require Import List String Bool Arith Lia Permutation Sorted.
Import ListNotations.
Local Open Scope string_scope.
Local Open Scope list_scope.

(** ** Types and type indices *)

(** The C++ types that occur as visitor capabilities, as entries of a
    [TypeList] and as cast targets. *)
Inductive CType : Type :=
| Named (name : string)     (* a class or builtin type: [A], [int] *)
| Const (t : CType)         (* [const t] *)
| LRef (t : CType).         (* [t &] *)

Fixpoint CType_eqb (a b : CType) : bool :=
  match a, b with
  | Named x, Named y => String.eqb x y
  | Const x, Const y => CType_eqb x y
  | LRef x, LRef y => CType_eqb x y
  | _, _ => false
  end.

(** Modelled from the spec: [lars/type_index.h] ([TypeIndex], [getTypeIndex])
    is not part of the sources.  The spec asks of [keyOf<T>]: the same key for
    the same [T] everywhere, distinct types never alias.  The key of a type is
    therefore the type itself and [idx == getTypeIndex<First>()] is equality
    of types. *)
Definition TypeIndex : Type := CType.

Definition getTypeIndex (T : CType) : TypeIndex := T.

Definition TypeIndex_eqb : TypeIndex -> TypeIndex -> bool := CType_eqb.

Definition TypeList : Type := list CType.

(** [std::is_const<T>::value] *)
Definition is_const (t : CType) : bool :=
  match t with
  | Const _ => true
  | _ => false
  end.

(** Addresses of (sub)objects; a pointer is [option Addr], [None] being
    [nullptr]. *)
Definition Addr : Type := nat.

(** ** Inheritance lists *)

(** [OrderedType<T, V>] (visitor.h:174 builds [OrderedType<T, 0>]): a class
    name with its order value. *)
Definition OrderedType : Type := (string * nat)%type.

Definition InheritanceList_t : Type := list OrderedType.

Definition Types (l : InheritanceList_t) : list string := map fst l.

(** Modelled from the spec: [ReferenceTypes] and [ConstReferenceTypes] are
    members of the absent [lars/inheritance_list.h]; the spec has a mutable
    and a read-only view of every ancestor list.  The views are the
    [TypeList]s of the [T &] and of the [const T &] of the entries. *)
Definition ReferenceTypes (l : InheritanceList_t) : TypeList :=
  map (fun T => LRef (Named (fst T))) l.

Definition ConstReferenceTypes (l : InheritanceList_t) : TypeList :=
  map (fun T => LRef (Const (Named (fst T)))) l.

Definition Contains (T : string) (l : InheritanceList_t) : bool :=
  existsb (fun y => String.eqb T (fst y)) l.

(** Ordered insertion: [x] goes behind every entry whose order value is at
    least its own, so the list stays sorted by descending order value and
    entries of equal value keep their order of arrival. *)
Fixpoint InsertOrdered (x : OrderedType) (l : InheritanceList_t) : InheritanceList_t :=
  match l with
  | [] => [x]
  | y :: l' => if (snd y <? snd x)%nat then x :: l else y :: InsertOrdered x l'
  end.

Definition PushOrdered (x : OrderedType) (l : InheritanceList_t) : InheritanceList_t :=
  if Contains (fst x) l then l else InsertOrdered x l.

Definition MergeInto (acc l : InheritanceList_t) : InheritanceList_t :=
  fold_left (fun a x => PushOrdered x a) l acc.

(** The parents' lists merged by order value: first occurrences only, each
    inserted by [InsertOrdered]. *)
Definition StableMerge (ls : list InheritanceList_t) : InheritanceList_t :=
  fold_left MergeInto ls [].

(** The scan of the parents' lists in declaration order that appends an
    entry only if it is absent so far. *)
Definition KeepFirst (acc : InheritanceList_t) (x : OrderedType) : InheritanceList_t :=
  if Contains (fst x) acc then acc else acc ++ [x].

Definition FirstOccurrences (ls : list InheritanceList_t) : InheritanceList_t :=
  fold_left (fun acc l => fold_left KeepFirst l acc) ls [].

(** A list of a root or of a line of single-parent classes has strictly
    falling order values; a list that is not such a line came out of a
    join. *)
Fixpoint Chain (l : InheritanceList_t) : bool :=
  match l with
  | x :: ((y :: _) as l') => (snd y <? snd x)%nat && Chain l'
  | _ => true
  end.

Definition Joined (l : InheritanceList_t) : bool := negb (Chain l).

(** The class at the head of the parent's list [li] is an ancestor inside
    the parent's list [lj]. *)
Definition DeclaredIn (lj li : InheritanceList_t) : bool :=
  match li with
  | [] => false
  | x :: _ => Contains (fst x) (tl lj)
  end.

(** The nested-join case of the spec: a parent's list is itself a joined
    list, and the join declares one of the ancestors inside it directly. *)
Definition NestedJoin (ls : list InheritanceList_t) : bool :=
  existsb (fun lj => Joined lj && existsb (DeclaredIn lj) ls) ls.

(** Modelled from the spec: [Push] belongs to the absent
    [lars/inheritance_list.h]; visitor.h:201 uses it.  The spec's rule for a
    single-parent class: the class itself in front of the parent's list.
    The new entry gets an order value one above the head of the base list
    (a root has value 0, visitor.h:174). *)
Definition Push (T : string) (l : InheritanceList_t) : InheritanceList_t :=
  (T, match l with [] => 0 | y :: _ => S (snd y) end) :: l.

(** Modelled from the spec: [Merge] belongs to the absent
    [lars/inheritance_list.h]; visitor.h:228 and 255 use it.  The spec's rule
    for a join: the parents' lists are merged in declaration order, an entry
    being appended only if it is absent so far ([FirstOccurrences]).  The
    spec's nested-join case ([NestedJoin]): when a parent's list is itself a
    joined list and the join also declares one of its ancestors directly, the
    merge can reorder, and the spec leaves the position to the worked example
    of [tests/visitor.cpp], the visit order [FEDBA] of [F].  For that case
    alone the entries are placed by the order values that visitor.h:174
    attaches to them ([StableMerge]), which yields [FEDBA]; the spec gives no
    rule there.  All the lists the test file expects ([CA], [DAB], [EDAB],
    [FEDBA], ...) come out of these definitions. *)
Definition Merge (ls : list InheritanceList_t) : InheritanceList_t :=
  if NestedJoin ls then StableMerge ls else FirstOccurrences ls.

(** ** Visitable classes *)

(** The class templates that carry an [InheritanceList] member. *)
#[warnings="-register-all"] Inductive Hierarchy : Type :=
| Visitable (T : string)
| DerivedVisitable (T : string) (B : Hierarchy)
| JoinVisitable (Bases : list Hierarchy)
| VirtualJoinVisitable (Bases : list Hierarchy)
| ProxyVisitable (T : string) (Inheritance : InheritanceList_t).

Fixpoint InheritanceList (h : Hierarchy) : InheritanceList_t :=
  match h with
  | Visitable T => [(T, 0)]
  | DerivedVisitable T B => Push T (InheritanceList B)
  | JoinVisitable Bases => Merge (map InheritanceList Bases)
  | VirtualJoinVisitable Bases => Merge (map InheritanceList Bases)
  | ProxyVisitable _ Inheritance => Inheritance
  end.

(** The classes whose [accept] an object can run: [NonVisitable], the
    templates above, and [DataVisitable] with its two explicit type lists. *)
Inductive VisitableClass : Type :=
| NonVisitable
| Inheriting (h : Hierarchy)
| DataVisitable (T : string) (Types ConstTypes : TypeList).

(** The [TypeList] that [accept] hands to [visit]; [const_] selects the
    [const] overload of [accept]. *)
Definition accept_types (c : VisitableClass) (const_ : bool) : TypeList :=
  match c with
  | NonVisitable => []
  | Inheriting h =>
      if const_ then ConstReferenceTypes (InheritanceList h)
      else ReferenceTypes (InheritanceList h)
  | DataVisitable _ Ts CTs => if const_ then CTs else Ts
  end.

(** Modelled from the spec: [NamedTypeIndex] and [getNamedTypeIndex] belong to
    the absent [lars/type_index.h]; the spec's [nameOf<T>] is for diagnostics
    only.  A named index stands for the type it was made from: a data type
    ([getNamedTypeIndex<T>()] in the cast) or the class of [this] in an
    [accept] ([getNamedTypeIndex<V>()] in [visit]), [const] in the [const]
    overload. *)
Inductive NamedTypeIndex : Type :=
| NamedTypeOf (T : CType)
| NamedClassOf (const_ : bool) (V : VisitableClass).

(** An object behind a [VisitableBase *]: the class whose [accept] overrides
    apply, the name of its most derived class, and what
    [static_cast<T>( *visitable)] designates for each [T]. *)
Record Object : Type := {
  class_of : VisitableClass;
  concrete : string;
  static_cast_ : CType -> Addr
}.

(** [&object] as a pointer to its most derived class. *)
Definition addressof (o : Object) : Addr :=
  static_cast_ o (LRef (Named (concrete o))).

(** ** Errors and effects *)

Inductive exn : Type :=
| IncompatibleVisitorException (typeIndex : NamedTypeIndex)
| OtherException (what : string).

Module Eff.
(** A computation over a caller state [S] that returns or throws; the state
    survives a throw, as assignments made before a C++ [throw] do. *)
Definition M (S X : Type) : Type := S -> (exn + X) * S.

Definition ret {S X} (x : X) : M S X := fun s => (inr x, s).

Definition throw {S X} (e : exn) : M S X := fun s => (inl e, s).

Definition bind {S X Y} (m : M S X) (f : X -> M S Y) : M S Y :=
  fun s =>
    match m s with
    | (inl e, s') => (inl e, s')
    | (inr x, s') => f x s'
    end.
End Eff.
Import Eff.

Notation "x <- m ;; k" := (bind m (fun x => k))
  (at level 100, m at next level, right associativity).

(** ** Visitor prototype *)

Section Dispatch.
Context {S : Type}.

(** [VisitorPrototype<SingleBase, Single, Args...>]: the declared
    capabilities and, for each, the overrider of [Single<T>::visit(T)].
    [R] is [unit] for [SingleVisitor] and [bool] for
    [SingleRecursiveVisitor]. *)
Record VisitorPrototype (R : Type) : Type := {
  Args : list CType;
  visit_ : CType -> Addr -> M S R
}.
Arguments Args {R} _.
Arguments visit_ {R} _ _ _.

(** The result is the [Single<First>] base of the visitor, named by
    [First]; [None] is [nullptr].  An empty pack has no instantiation. *)
Fixpoint getVisitorForWorker (args : list CType) (idx : TypeIndex) : option CType :=
  match args with
  | [] => None
  | First :: Rest =>
      if TypeIndex_eqb idx (getTypeIndex First) then Some First
      else match Rest with
           | [] => None
           | _ :: _ => getVisitorForWorker Rest idx
           end
  end.

Definition getVisitorFor {R} (visitor : VisitorPrototype R) (idx : TypeIndex) : option CType :=
  getVisitorForWorker (Args visitor) idx.

Definition asVisitorFor {R} (visitor : VisitorPrototype R) (T : CType) : option CType :=
  getVisitorFor visitor (getTypeIndex T).

(** ** Visit algorithms *)

(** visitor.h:116-132, for a plain visitor. *)
Fixpoint visit (V : NamedTypeIndex) (visitable : Object) (types : TypeList)
    (visitor : VisitorPrototype unit) : M S unit :=
  match types with
  | [] => throw (IncompatibleVisitorException V)
  | T :: Rest =>
      match asVisitorFor visitor T with
      | Some v => visit_ visitor v (static_cast_ visitable T)
      | None =>
          match Rest with
          | _ :: _ => visit V visitable Rest visitor
          | [] => throw (IncompatibleVisitorException V)
          end
      end
  end.

(** visitor.h:134-153, for a recursive visitor: a handler that answers
    [false] ends the scan. *)
Fixpoint visit_recursive (V : NamedTypeIndex) (visitable : Object) (types : TypeList)
    (visitor : VisitorPrototype bool) : M S bool :=
  match types with
  | [] => throw (IncompatibleVisitorException V)
  | T :: Rest =>
      let rest :=
        match Rest with
        | _ :: _ => visit_recursive V visitable Rest visitor
        | [] => ret true
        end in
      match asVisitorFor visitor T with
      | Some v =>
          r <- visit_ visitor v (static_cast_ visitable T) ;;
          if negb r then ret false else rest
      | None => rest
      end
  end.

(** ** accept *)

(** [accept(VisitorBase &)], [const] or not: every class calls [visit] with
    [this] and its type list ([NonVisitable] with [TypeList<>]). *)
Definition accept (this : Object) (const_ : bool) (visitor : VisitorPrototype unit) : M S unit :=
  visit (NamedClassOf const_ (class_of this)) this
        (accept_types (class_of this) const_) visitor.

(** [accept(RecursiveVisitorBase &)]: [NonVisitable] answers [false]
    without a visit, the others call [visit]. *)
Definition accept_recursive (this : Object) (const_ : bool)
    (visitor : VisitorPrototype bool) : M S bool :=
  match class_of this with
  | NonVisitable => ret false
  | c => visit_recursive (NamedClassOf const_ c) this (accept_types c const_) visitor
  end.

End Dispatch.

Arguments VisitorPrototype S R : clear implicits.
Arguments Args {S R} _.
Arguments visit_ {S R} _ _ _.

(** ** Visitor cast *)

(** [CastVisitor<T>] for [T = t *]: a recursive visitor for [t &] whose state
    is its [result] member; the handler stores the address of its argument
    and answers [false]. *)
Definition CastVisitor (t : CType) : VisitorPrototype (option Addr) bool :=
  {| Args := [LRef t];
     visit_ := fun _ a _ => (inr false, Some a) |}.

(** [visitor_cast<t *>(v)]: both pointer overloads; the one for a [const]
    pointee takes a [const VisitableBase *] and so runs the [const]
    [accept].  [result] starts as [nullptr]. *)
Definition visitor_cast_ptr (t : CType) (v : Object) : exn + option Addr :=
  let visitor := CastVisitor t in
  match accept_recursive v (is_const t) visitor None with
  | (inl e, _) => inl e
  | (inr _, result) => inr result
  end.

(** [visitor_cast<t &>(v)] *)
Definition visitor_cast_ref (t : CType) (v : Object) : exn + Addr :=
  match visitor_cast_ptr t v with
  | inl e => inl e
  | inr (Some res) => inr res
  | inr None => inl (IncompatibleVisitorException (NamedTypeOf (LRef t)))
  end.

(** ** The classes of [tests/visitor.cpp] *)

Module Tests.

Definition X := Visitable "X".
Definition A := Visitable "A".
Definition B := Visitable "B".
Definition C := DerivedVisitable "C" A.
Definition D := DerivedVisitable "D" (VirtualJoinVisitable [A; B]).
Definition E := DerivedVisitable "E" (VirtualJoinVisitable [D; A; X]).
Definition F := DerivedVisitable "F" (VirtualJoinVisitable [B; E]).
Definition BX := DerivedVisitable "BX" (JoinVisitable [B; X]).
Definition XB := DerivedVisitable "XB" (JoinVisitable [X; B]).
Definition CX := JoinVisitable [C; X].
Definition XC := VirtualJoinVisitable [X; C].

End Tests.
Import Tests.

(** The objects the tests create: every subobject view of an object is at
    [base] plus an offset that depends on the view. *)
Definition offset (T : CType) : nat :=
  match T with
  | LRef (Named (String c _)) | LRef (Const (Named (String c _))) => Ascii.nat_of_ascii c
  | _ => 0
  end.

Definition make (h : Hierarchy) (name : string) (base : Addr) : Object :=
  {| class_of := Inheriting h; concrete := name;
     static_cast_ := fun T => base + offset T |}.

Definition empty_visitable (base : Addr) : Object :=
  {| class_of := NonVisitable; concrete := "NonVisitable";
     static_cast_ := fun _ => base |}.

(** The [name] member that a handler of the test visitors reads through its
    argument. *)
Definition tag (T : CType) : string :=
  match T with
  | LRef (Named n) | LRef (Const (Named n)) => n
  | _ => ""
  end.

(** [ABCVisitor] and [ABXVisitor]: [result] is the visitor's state. *)
Definition ABCVisitor : VisitorPrototype string unit :=
  {| Args := [LRef (Const (Named "A")); LRef (Const (Named "B")); LRef (Const (Named "C"))];
     visit_ := fun T _ _ => (inr tt, tag T) |}.

Definition ABXVisitor : VisitorPrototype string unit :=
  {| Args := [LRef (Named "A"); LRef (Named "B"); LRef (Named "X")];
     visit_ := fun T _ result => (inr tt, (result ++ tag T)%string) |}.

(** A visitor for [A] and [B] only. *)
Definition ABXVisitor' : VisitorPrototype string unit :=
  {| Args := [LRef (Named "A"); LRef (Named "B")];
     visit_ := fun T _ result => (inr tt, (result ++ tag T)%string) |}.

(** [ABCDRecursiveVisitor]: every handler appends the name it reads and
    answers [answer].  In visitor.h:140 the scan goes on exactly when the
    handler answers [true]. *)
Definition ABCDRecursiveVisitor (answer : bool) : VisitorPrototype string bool :=
  {| Args := map (fun n => LRef (Named n)) ["A"; "B"; "C"; "D"; "E"; "F"];
     visit_ := fun T _ result => (inr answer, (result ++ tag T)%string) |}.

(** A recursive visitor for the six classes whose handler for [D] ends the
    scan. *)
Definition StopAtD : VisitorPrototype string bool :=
  {| Args := map (fun n => LRef (Named n)) ["A"; "B"; "C"; "D"; "E"; "F"];
     visit_ := fun T _ result =>
       (inr (negb (String.eqb (tag T) "D")), (result ++ tag T)%string) |}.

(** The class a type is built on, under [const] and [&]. *)
Fixpoint class_name (T : CType) : string :=
  match T with
  | Named n => n
  | Const t => class_name t
  | LRef t => class_name t
  end.

(** A named index names the type of an entity when it was made from the
    object's most derived class, under [const] and [&].  The class templates
    of the header are bases of that class, not the class: an index made from
    one of them does not name it. *)
Definition names_entity (n : NamedTypeIndex) (o : Object) : Prop :=
  match n with
  | NamedTypeOf T => class_name T = concrete o
  | NamedClassOf _ _ => False
  end.

(** The join rule in the words of the specification: the parents' lists are
    scanned in declaration order and an entry is appended only if it is
    absent so far. *)
Definition append_if_absent (acc : list string) (T : string) : list string :=
  if existsb (String.eqb T) acc then acc else acc ++ [T].

Definition first_occurrence_merge (ls : list (list string)) : list string :=
  fold_left (fun acc l => fold_left append_if_absent l acc) ls [].

(** Insertion sort by descending order value, stable. *)
Definition SortByOrder (l : InheritanceList_t) : InheritanceList_t :=
  fold_left (fun a x => InsertOrdered x a) l [].

(** A class template with an empty type list has no instantiation: its
    [accept] bodies return the result of [visit], and the two [visit]
    overloads for [TypeList<>] (visitor.h:130, 151) are declared [bool] for a
    plain and [void] for a recursive visitor.  [NonVisitable] has bodies of
    its own. *)
Definition instantiable (c : VisitableClass) : bool :=
  match c with
  | NonVisitable => true
  | _ =>
      match accept_types c false, accept_types c true with
      | _ :: _, _ :: _ => true
      | _, _ => false
      end
  end.

(** Whether the visitor declares the capability [T]. *)
Definition handles {S R} (visitor : VisitorPrototype S R) (T : CType) : bool :=
  existsb (TypeIndex_eqb T) (Args visitor).

(** The visitor with every handler call recorded: the state carries the list
    of the calls made so far, each with the handler's outcome. *)
Definition Event (R : Type) : Type := (CType * (exn + R))%type.

Definition traced {S R} (visitor : VisitorPrototype S R)
    : VisitorPrototype (S * list (Event R)) R :=
  {| Args := Args visitor;
     visit_ := fun T x st =>
       let (r, s') := visit_ visitor T x (fst st) in
       (r, (s', snd st ++ [(T, r)])) |}.

(** A recorded call after which the scan goes on. *)
Definition continues (e : Event bool) : Prop := snd e = inr true.

(** The tail call of the recursive [visit]:
    [if constexpr (sizeof...(Rest) > 0) return visit(...); else return true;] *)
Definition visit_rest {S} (V : NamedTypeIndex) (visitable : Object) (Rest : TypeList)
    (visitor : VisitorPrototype S bool) : M S bool :=
  match Rest with
  | _ :: _ => visit_recursive V visitable Rest visitor
  | [] => ret true
  end.

(** ** The message of the exception *)

(** An [IncompatibleVisitorException] object: the [mutable] message buffer
    and the named index it was built from. *)
Record ExceptionObject : Type := {
  buffer : string;
  typeIndex : NamedTypeIndex
}.

(** The constructor leaves [buffer] empty. *)
Definition construct (t : NamedTypeIndex) : ExceptionObject :=
  {| buffer := ""; typeIndex := t |}.

(** [what()]: the message is built on the first call, when the buffer is
    empty, and kept; the answer is the buffer.  [name] is
    [NamedTypeIndex::name()] of the absent [lars/type_index.h]. *)
Definition what (name : NamedTypeIndex -> string) (e : ExceptionObject)
    : string * ExceptionObject :=
  let e' :=
    if Nat.eqb (String.length (buffer e)) 0
    then {| buffer := ("IncompatibleVisitor: incompatible visitor for " ++ name (typeIndex e))%string;
            typeIndex := typeIndex e |}
    else e in
  (buffer e', e').

(** ** Further visitors *)


(** A recursive visitor for the six test classes whose handler for [D]
    throws. *)
Definition ThrowAtD : VisitorPrototype string bool :=
  {| Args := map (fun n => LRef (Named n)) ["A"; "B"; "C"; "D"; "E"; "F"];
     visit_ := fun T _ result =>
       (if String.eqb (tag T) "D" then inl (OtherException "D") else inr true,
        (result ++ tag T)%string) |}.

(** The entry of a class [T] in the mutable or the read-only view. *)
Definition view (const_ : bool) (T : string) : CType :=
  if const_ then LRef (Const (Named T)) else LRef (Named T).

(** The classes an object of a visitable class derives from, the class
    itself included, as the C++ inheritance of the templates gives them:
    [Visitable<T>] is a base of [T], [DerivedVisitable<T, B>] derives from
    [B], a join from each of its bases; a proxy stands for the types of its
    list. *)
Fixpoint ancestors (h : Hierarchy) : list string :=
  match h with
  | Visitable T => [T]
  | DerivedVisitable T B => T :: ancestors B
  | JoinVisitable Bases => List.concat (map ancestors Bases)
  | VirtualJoinVisitable Bases => List.concat (map ancestors Bases)
  | ProxyVisitable _ Inheritance => Types Inheritance
  end.

(** * Properties *)

(** ** Type indices and capability lookup *)

Lemma CType_eqb_refl (a : CType) : CType_eqb a a = true.
Proof. induction a; simpl; auto using String.eqb_refl. Qed.

Lemma CType_eqb_eq (a b : CType) : CType_eqb a b = true <-> a = b.
Proof.
  split; [| intros ->; apply CType_eqb_refl].
  revert b; induction a; intros [] H; simpl in H; try discriminate.
  - apply String.eqb_eq in H; now subst.
  - f_equal; auto.
  - f_equal; auto.
Qed.

Lemma existsb_eqb_In (T : CType) (l : list CType) :
  existsb (TypeIndex_eqb T) l = true <-> In T l.
Proof.
  rewrite existsb_exists; split.
  - intros (x & Hx & E). apply CType_eqb_eq in E. now subst.
  - intros H. exists T. split; auto using CType_eqb_refl.
Qed.

Lemma getVisitorForWorker_lookup (args : list CType) (idx : TypeIndex) :
  getVisitorForWorker args idx =
  if existsb (TypeIndex_eqb idx) args then Some idx else None.
Proof.
  induction args as [| First Rest IH]; simpl; auto.
  unfold getTypeIndex.
  destruct (TypeIndex_eqb idx First) eqn:E.
  - apply CType_eqb_eq in E. now subst.
  - simpl. destruct Rest; auto.
Qed.

Section DispatchFacts.
Context {S : Type}.

Lemma asVisitorFor_handles {R} (visitor : VisitorPrototype S R) (T : CType) :
  asVisitorFor visitor T = if handles visitor T then Some T else None.
Proof. apply getVisitorForWorker_lookup. Qed.

Lemma handles_In {R} (visitor : VisitorPrototype S R) (T : CType) :
  handles visitor T = true <-> In T (Args visitor).
Proof. apply existsb_eqb_In. Qed.

Lemma handles_Permutation {R} (visitor visitor' : VisitorPrototype S R) (T : CType) :
  Permutation (Args visitor) (Args visitor') ->
  handles visitor T = handles visitor' T.
Proof.
  intros P. apply eq_true_iff_eq. rewrite !handles_In.
  split; apply Permutation_in; auto using Permutation_sym.
Qed.

(** ** Plain dispatch *)

Lemma visit_no_match V this types (visitor : VisitorPrototype S unit) :
  (forall T, In T types -> handles visitor T = false) ->
  visit V this types visitor = throw (IncompatibleVisitorException V).
Proof.
  induction types as [| T Rest IH]; intros H; simpl; auto.
  rewrite asVisitorFor_handles, (H T) by now left.
  destruct Rest; auto. apply IH. intros U HU. apply H. now right.
Qed.

Lemma visit_first_match V this pre T post (visitor : VisitorPrototype S unit) :
  (forall U, In U pre -> handles visitor U = false) ->
  handles visitor T = true ->
  visit V this (pre ++ T :: post) visitor = visit_ visitor T (static_cast_ this T).
Proof.
  intros Hpre HT. induction pre as [| U pre IH]; simpl.
  - now rewrite asVisitorFor_handles, HT.
  - rewrite asVisitorFor_handles, (Hpre U) by now left.
    destruct (pre ++ T :: post) eqn:E.
    + now destruct pre.
    + apply IH. intros W HW. apply Hpre. now right.
Qed.

Lemma visit_same_capabilities V this types (visitor visitor' : VisitorPrototype S unit) :
  (forall T, handles visitor T = handles visitor' T) ->
  visit_ visitor = visit_ visitor' ->
  visit V this types visitor = visit V this types visitor'.
Proof.
  intros Hh Hv. induction types as [| T Rest IH]; simpl; auto.
  rewrite !asVisitorFor_handles, <- Hh, Hv.
  destruct (handles visitor T); auto. destruct Rest; auto.
Qed.

(** The first entry of a list that satisfies a test splits the list. *)
Lemma first_match_split (f : CType -> bool) (l : list CType) :
  (exists U, In U l /\ f U = true) ->
  exists pre T post,
    l = pre ++ T :: post /\ (forall U, In U pre -> f U = false) /\ f T = true.
Proof.
  induction l as [| a l IH]; intros (U & HU & HfU); [destruct HU |].
  destruct (f a) eqn:Ea.
  - exists [], a, l. repeat split; auto. intros ? [].
  - destruct IH as (pre & T & post & -> & Hpre & HT).
    + destruct HU as [-> | HU]; [congruence |]. eauto.
    + exists (a :: pre), T, post. repeat split; auto.
      intros W [<- | HW]; auto.
Qed.

End DispatchFacts.

Section RecursiveFacts.
Context {S : Type}.

Lemma visit_recursive_step V this T Rest (visitor : VisitorPrototype S bool) :
  visit_recursive V this (T :: Rest) visitor =
  match asVisitorFor visitor T with
  | Some v =>
      r <- visit_ visitor v (static_cast_ this T) ;;
      if negb r then ret false else visit_rest V this Rest visitor
  | None => visit_rest V this Rest visitor
  end.
Proof. reflexivity. Qed.

Lemma visit_rest_cons V this T Rest (visitor : VisitorPrototype S bool) :
  visit_rest V this (T :: Rest) visitor = visit_recursive V this (T :: Rest) visitor.
Proof. reflexivity. Qed.

Lemma visit_recursive_nonempty V this types (visitor : VisitorPrototype S bool) :
  types <> [] ->
  visit_recursive V this types visitor = visit_rest V this types visitor.
Proof. destruct types; [congruence | reflexivity]. Qed.

Lemma visit_rest_no_match V this types (visitor : VisitorPrototype S bool) :
  (forall T, In T types -> handles visitor T = false) ->
  visit_rest V this types visitor = ret true.
Proof.
  induction types as [| T Rest IH]; intros H; auto.
  rewrite visit_rest_cons, visit_recursive_step, asVisitorFor_handles, (H T) by now left.
  apply IH. intros U HU. apply H. now right.
Qed.

End RecursiveFacts.

Lemma handles_traced {S R} (visitor : VisitorPrototype S R) (T : CType) :
  handles (traced visitor) T = handles visitor T.
Proof. reflexivity. Qed.

Lemma not_In_handles {S R} (visitor : VisitorPrototype S R) (types : TypeList) :
  (forall T, In T types -> ~ In T (Args visitor)) ->
  forall T, In T types -> handles visitor T = false.
Proof.
  intros H T HT. apply not_true_is_false. rewrite handles_In. now apply H.
Qed.

Lemma instantiable_nonempty (c : VisitableClass) (const_ : bool) :
  instantiable c = true -> c <> NonVisitable -> accept_types c const_ <> [].
Proof.
  destruct c as [| h | T Ts CTs]; simpl; try congruence; intros H _.
  - unfold ReferenceTypes, ConstReferenceTypes in *.
    destruct (InheritanceList h), const_; simpl in *; congruence.
  - destruct const_, Ts, CTs; congruence.
Qed.

(** ** C1 *)

(** C1.  If some entry of the entity's ancestor list is a capability of the
    plain visitor, the list splits at its first such entry [T]: no entry
    before [T] is a capability, and the whole dispatch is the call of the
    handler for [T] on the [T] view of the entity.  Declaring the
    capabilities in another order [args'] does not change the dispatch. *)
Theorem plain_dispatch_first_match {S} (this : Object) (const_ : bool)
    (visitor : VisitorPrototype S unit) :
  ((exists U, In U (accept_types (class_of this) const_) /\ In U (Args visitor)) ->
   exists pre T post,
     accept_types (class_of this) const_ = pre ++ T :: post /\
     (forall U, In U pre -> ~ In U (Args visitor)) /\
     In T (Args visitor) /\
     accept this const_ visitor = visit_ visitor T (static_cast_ this T)) /\
  (forall args', Permutation (Args visitor) args' ->
     accept this const_ {| Args := args'; visit_ := visit_ visitor |} =
     accept this const_ visitor).
Proof.
  split.
  - intros (U & HU & HA).
    destruct (first_match_split (handles visitor) (accept_types (class_of this) const_))
      as (pre & T & post & E & Hpre & HT).
    { exists U. split; auto. now apply handles_In. }
    exists pre, T, post. repeat split; auto.
    + intros W HW HIn. apply handles_In in HIn. rewrite (Hpre W HW) in HIn.
      discriminate.
    + now apply handles_In.
    + unfold accept. rewrite E. now apply visit_first_match.
  - intros args' P. unfold accept. apply visit_same_capabilities; auto.
    intros W. symmetry. now apply handles_Permutation.
Qed.

(** Scenario 3 of the tests: [D] against a visitor for [A], [B] and [X], and
    against the same visitor declared for [X], [B] and [A]. *)
Lemma plain_dispatch_first_match_witness :
  (exists pre T post,
     accept_types (class_of (make D "D" 100)) false = pre ++ T :: post /\
     (forall U, In U pre -> ~ In U (Args ABXVisitor)) /\
     In T (Args ABXVisitor) /\
     accept (make D "D" 100) false ABXVisitor =
       visit_ ABXVisitor T (static_cast_ (make D "D" 100) T)) /\
  accept (make D "D" 100) false
    {| Args := [LRef (Named "X"); LRef (Named "B"); LRef (Named "A")];
       visit_ := visit_ ABXVisitor |} =
    accept (make D "D" 100) false ABXVisitor.
Proof.
  destruct (plain_dispatch_first_match (make D "D" 100) false ABXVisitor) as [H1 H2].
  split.
  - apply H1. exists (LRef (Named "A")). split; simpl; auto.
  - apply H2. simpl.
    apply (Permutation_rev [LRef (Named "A"); LRef (Named "B"); LRef (Named "X")]).
Defined.

(** ** C4 *)

(** C4.  When no entry of the entity's ancestor list is a capability of the
    visitor, plain dispatch throws [IncompatibleVisitorException] and
    recursive dispatch returns without an exception; in both the caller's
    state is untouched and no handler call is recorded. *)
Theorem no_match_dispatch {S} (this : Object) (const_ : bool) (s : S) :
  (forall (plain : VisitorPrototype S unit) calls,
     (forall T, In T (accept_types (class_of this) const_) -> ~ In T (Args plain)) ->
     accept this const_ (traced plain) (s, calls) =
       (inl (IncompatibleVisitorException (NamedClassOf const_ (class_of this))),
        (s, calls))) /\
  (forall (recursive : VisitorPrototype S bool) calls,
     instantiable (class_of this) = true ->
     (forall T, In T (accept_types (class_of this) const_) -> ~ In T (Args recursive)) ->
     accept_recursive this const_ (traced recursive) (s, calls) =
       (inr (match class_of this with NonVisitable => false | _ => true end),
        (s, calls))).
Proof.
  split.
  - intros plain calls Hp. unfold accept. rewrite visit_no_match; auto.
    intros T HT. rewrite handles_traced. revert T HT. now apply not_In_handles.
  - intros recursive calls Hi Hr. unfold accept_recursive.
    assert (Hrest : forall V, visit_rest V this (accept_types (class_of this) const_)
                       (traced recursive) = ret true).
    { intros V. apply visit_rest_no_match. intros T HT. rewrite handles_traced.
      revert T HT. now apply not_In_handles. }
    destruct (class_of this) eqn:Ec; auto.
    + rewrite visit_recursive_nonempty, Hrest; auto.
      apply instantiable_nonempty; [auto | discriminate].
    + rewrite visit_recursive_nonempty, Hrest; auto.
      apply instantiable_nonempty; [auto | discriminate].
Qed.

(** Scenario 4 of the tests: [X] against visitors that do not name it. *)
Lemma no_match_dispatch_witness :
  accept (make X "X" 100) false (traced ABXVisitor') ("", []) =
    (inl (IncompatibleVisitorException (NamedClassOf false (Inheriting X))), ("", [])) /\
  accept_recursive (make X "X" 100) false (traced (ABCDRecursiveVisitor true)) ("", []) =
    (inr true, ("", [])).
Proof.
  destruct (no_match_dispatch (make X "X" 100) false "") as [H1 H2].
  split.
  - apply (H1 ABXVisitor' []).
    simpl. intros T [<- | []] H. simpl in H. intuition discriminate.
  - apply (H2 (ABCDRecursiveVisitor true) []).
    + reflexivity.
    + simpl. intros T [<- | []] H. simpl in H. intuition discriminate.
Defined.

(** ** C7 *)

(** C7.  [NonVisitable] has no ancestors; its plain [accept] throws
    [IncompatibleVisitorException] for every visitor, its recursive [accept]
    returns (the answer is [false]) for every recursive visitor; neither
    touches the caller's state nor calls a handler. *)
Theorem empty_entity_dispatch {S} (this : Object) (const_ : bool)
    (plain : VisitorPrototype S unit) (recursive : VisitorPrototype S bool)
    (s : S) (calls : list (Event unit)) (calls' : list (Event bool)) :
  class_of this = NonVisitable ->
  accept_types (class_of this) const_ = [] /\
  accept this const_ (traced plain) (s, calls) =
    (inl (IncompatibleVisitorException (NamedClassOf const_ NonVisitable)), (s, calls)) /\
  accept_recursive this const_ (traced recursive) (s, calls') =
    (inr false, (s, calls')).
Proof.
  intros E. unfold accept, accept_recursive. rewrite E. simpl. auto.
Qed.

Lemma empty_entity_dispatch_witness :
  accept_types (class_of (empty_visitable 7)) false = [] /\
  accept (empty_visitable 7) false (traced ABCVisitor) ("", []) =
    (inl (IncompatibleVisitorException (NamedClassOf false NonVisitable)), ("", [])) /\
  accept_recursive (empty_visitable 7) false (traced (ABCDRecursiveVisitor true)) ("", []) =
    (inr false, ("", [])).
Proof.
  apply (empty_entity_dispatch (empty_visitable 7) false ABCVisitor
           (ABCDRecursiveVisitor true) "" [] []).
  reflexivity.
Defined.

(** ** The calls of a recursive dispatch *)

Section TraceFacts.
Context {S : Type}.
Variable V : NamedTypeIndex.
Variable this : Object.
Variable visitor : VisitorPrototype S bool.

(** The calls that a scan adds are those for the entries with a capability,
    in list order; every call but the last answered [true]; the scan either
    walks the whole list, or its last call did not answer [true] and that
    call's outcome is the outcome of the scan. *)
Lemma visit_rest_traced types : forall s calls r s' calls',
  visit_rest V this types (traced visitor) (s, calls) = (r, (s', calls')) ->
  exists new, calls' = calls ++ new /\
    ((r = inr true /\ map fst new = filter (handles visitor) types /\
      Forall continues new)
     \/
     (r <> inr true /\
      exists done T later new',
        types = done ++ T :: later /\ handles visitor T = true /\
        new = new' ++ [(T, r)] /\
        map fst new' = filter (handles visitor) done /\
        Forall continues new')).
Proof.
  induction types as [| T Rest IH]; intros s calls r s' calls' H.
  - inversion H; subst. exists []. rewrite app_nil_r. split; auto.
  - rewrite visit_rest_cons, visit_recursive_step, asVisitorFor_handles,
      handles_traced in H.
    destruct (handles visitor T) eqn:HT.
    + unfold bind in H. simpl in H.
      destruct (visit_ visitor T (static_cast_ this T) s) as [[e | [|]] s1] eqn:Ev;
        simpl in H.
      * inversion H; subst. exists [(T, inl e)]. split; auto.
        right. split; [discriminate |].
        exists [], T, Rest, []. repeat split; auto.
      * apply IH in H. destruct H as (new & -> & H).
        exists ((T, inr true) :: new). rewrite <- app_assoc. split; auto.
        destruct H as [(-> & Hm & Hc) | (Hr & done & U & later & new' & -> & HU & -> & Hm & Hc)].
        -- left. simpl. rewrite HT, Hm. repeat split; auto.
           constructor; auto. reflexivity.
        -- right. split; auto.
           exists (T :: done), U, later, ((T, inr true) :: new').
           simpl. rewrite HT, Hm. repeat split; auto.
           constructor; auto. reflexivity.
      * inversion H; subst. exists [(T, inr false)]. split; auto.
        right. split; [discriminate |].
        exists [], T, Rest, []. repeat split; auto.
    + apply IH in H. destruct H as (new & -> & H).
      exists new. split; auto.
      destruct H as [(-> & Hm & Hc) | (Hr & done & U & later & new' & -> & HU & -> & Hm & Hc)].
      * left. simpl. rewrite HT. auto.
      * right. split; auto.
        exists (T :: done), U, later, new'. simpl. rewrite HT. auto.
Qed.

End TraceFacts.

(** Recording the calls does not change what a dispatch does. *)
Lemma traced_faithful {S} V this (visitor : VisitorPrototype S bool) types :
  forall s calls,
    visit_rest V this types visitor s =
    (fst (visit_rest V this types (traced visitor) (s, calls)),
     fst (snd (visit_rest V this types (traced visitor) (s, calls)))).
Proof.
  induction types as [| T Rest IH]; intros s calls; auto.
  rewrite !visit_rest_cons, !visit_recursive_step, !asVisitorFor_handles,
    handles_traced.
  destruct (handles visitor T); auto.
  unfold bind. simpl.
  destruct (visit_ visitor T (static_cast_ this T) s) as [[e | [|]] s1]; simpl; auto.
Qed.

Lemma last_call_unique {X} (P : X -> Prop) (l1 l2 l3 : list X) (x y : X) :
  l1 ++ x :: l2 = l3 ++ [y] -> ~ P x -> Forall P l3 ->
  l1 = l3 /\ l2 = [] /\ x = y.
Proof.
  revert l3. induction l1 as [| a l1 IH]; intros [| b l3] E Hx Hl; simpl in E.
  - inversion E; auto.
  - inversion E; subst. inversion Hl; subst. contradiction.
  - inversion E as [[Ea E']]. now destruct l1.
  - inversion E as [[Ea E']]. inversion Hl; subst.
    destruct (IH l3 E' Hx) as (-> & -> & ->); auto.
Qed.

Lemma accept_recursive_visit_rest {S} (this : Object) (const_ : bool)
    (visitor : VisitorPrototype S bool) :
  accept_types (class_of this) const_ <> [] ->
  accept_recursive this const_ visitor =
  visit_rest (NamedClassOf const_ (class_of this)) this
             (accept_types (class_of this) const_) visitor.
Proof.
  intros H. unfold accept_recursive.
  destruct (class_of this) eqn:E; [now simpl in H | |];
    now rewrite visit_recursive_nonempty.
Qed.

(** ** The cast visitor *)

Lemma CType_eqb_sym (a b : CType) : CType_eqb a b = CType_eqb b a.
Proof.
  apply eq_true_iff_eq. rewrite !CType_eqb_eq. split; congruence.
Qed.

Lemma handles_CastVisitor (t T : CType) :
  handles (CastVisitor t) T = CType_eqb T (LRef t).
Proof. unfold handles, CastVisitor, Args. simpl. apply orb_false_r. Qed.

Lemma cast_visit_rest V this t types : forall result calls,
  visit_rest V this types (traced (CastVisitor t)) (result, calls) =
  if existsb (TypeIndex_eqb (LRef t)) types
  then (inr false, (Some (static_cast_ this (LRef t)), calls ++ [(LRef t, inr false)]))
  else (inr true, (result, calls)).
Proof.
  induction types as [| T Rest IH]; intros result calls; auto.
  rewrite visit_rest_cons, visit_recursive_step, asVisitorFor_handles, handles_traced.
  rewrite handles_CastVisitor.
  change (existsb (TypeIndex_eqb (LRef t)) (T :: Rest))
    with (CType_eqb (LRef t) T || existsb (TypeIndex_eqb (LRef t)) Rest).
  rewrite (CType_eqb_sym (LRef t) T).
  destruct (CType_eqb T (LRef t)) eqn:E; [| apply IH].
  apply CType_eqb_eq in E. now subst.
Qed.

Lemma visitor_cast_ptr_lookup (t : CType) (v : Object) :
  class_of v = NonVisitable \/ accept_types (class_of v) (is_const t) <> [] ->
  visitor_cast_ptr t v =
  inr (if existsb (TypeIndex_eqb (LRef t)) (accept_types (class_of v) (is_const t))
       then Some (static_cast_ v (LRef t)) else None).
Proof.
  intros [Ec | Hne]; unfold visitor_cast_ptr.
  - unfold accept_recursive. rewrite Ec. reflexivity.
  - rewrite accept_recursive_visit_rest by assumption.
    rewrite (traced_faithful _ _ _ _ _ []), cast_visit_rest.
    destruct (existsb _ _); reflexivity.
Qed.

Lemma instantiable_has_types (c : VisitableClass) (const_ : bool) :
  instantiable c = true -> c = NonVisitable \/ accept_types c const_ <> [].
Proof.
  intros H. destruct c as [| h | T Ts CTs]; [now left | right ..];
    apply instantiable_nonempty; auto; discriminate.
Qed.

(** ** C8 *)

(** C8.  In the calls of a recursive dispatch, a call that answered [false]
    is the last one: it is the call for an entry [T] of the ancestor list,
    the calls before it are those for the capabilities among the entries in
    front of [T], no entry behind [T] is visited, and the dispatch answers
    [false].  The cast visitor for [t], run over a list that holds [t &],
    makes one call, stores the address of the [t &] view and answers
    [false]. *)
Theorem stop_ends_scan {S} (this : Object) :
  (forall (const_ : bool) (visitor : VisitorPrototype S bool) (s s' : S)
          (r : exn + bool) (calls before after : list (Event bool)) (T : CType),
     accept_recursive this const_ (traced visitor) (s, []) = (r, (s', calls)) ->
     calls = before ++ (T, inr false) :: after ->
     after = [] /\ r = inr false /\
     exists done later,
       accept_types (class_of this) const_ = done ++ T :: later /\
       map fst before = filter (handles visitor) done) /\
  (forall t : CType,
     In (LRef t) (accept_types (class_of this) (is_const t)) ->
     accept_recursive this (is_const t) (traced (CastVisitor t)) (None, []) =
       (inr false, (Some (static_cast_ this (LRef t)), [(LRef t, inr false)]))).
Proof.
  split.
  - intros const_ visitor s s' r calls before after T Hrun Hcalls.
    destruct (accept_types (class_of this) const_) as [| T0 Rest] eqn:Et.
    { exfalso. unfold accept_recursive in Hrun.
      destruct (class_of this); try rewrite Et in Hrun;
        inversion Hrun; subst; now destruct before. }
    rewrite accept_recursive_visit_rest, Et in Hrun by (rewrite Et; discriminate).
    apply visit_rest_traced in Hrun. simpl in Hrun.
    destruct Hrun as (new & Hn & [(-> & Hm & Hc) | (Hr & done & U & later & new' & E & HU & En & Hm & Hc)]);
      rewrite Hcalls in Hn; subst new.
    + exfalso. apply Forall_elt in Hc. discriminate Hc.
    + destruct (last_call_unique continues _ _ _ _ _ En) as (-> & -> & Hx); auto.
      { discriminate. }
      inversion Hx; subst. repeat split; auto. now exists done, later.
  - intros t Hin.
    rewrite accept_recursive_visit_rest by (now destruct (accept_types _ _)).
    rewrite cast_visit_rest.
    apply existsb_eqb_In in Hin. now rewrite Hin.
Qed.

(** ** C9 *)

(** C9.  When a recursive dispatch over a non-empty ancestor list returns the
    boolean [b]: [b] is [true] exactly when every call answered [true], and
    then the calls are those for all the capabilities among the entries of
    the list; [b] is [false] exactly when some call answered [false]. *)
Theorem recursive_dispatch_answer {S} (this : Object) (const_ : bool)
    (visitor : VisitorPrototype S bool) (s s' : S) (b : bool)
    (calls : list (Event bool)) :
  accept_types (class_of this) const_ <> [] ->
  accept_recursive this const_ (traced visitor) (s, []) = (inr b, (s', calls)) ->
  (b = true <->
     Forall continues calls /\
     map fst calls = filter (handles visitor) (accept_types (class_of this) const_)) /\
  (b = false <-> Exists (fun e => snd e = inr false) calls).
Proof.
  intros Hne Hrun. rewrite accept_recursive_visit_rest in Hrun by auto.
  apply visit_rest_traced in Hrun. simpl in Hrun.
  destruct Hrun as (new & <- & [(Eb & Hm & Hc) | (Hr & done & U & later & new' & E & HU & -> & Hm & Hc)]).
  - inversion Eb; subst. split; split; auto; try discriminate.
    intros Hex. apply Exists_exists in Hex. destruct Hex as (e & He & Hs).
    rewrite Forall_forall in Hc. specialize (Hc e He). unfold continues in Hc.
    congruence.
  - destruct b; [congruence |]. split; split; auto; try discriminate.
    + intros (Hf & _). apply Forall_app in Hf. destruct Hf as (_ & Hf).
      inversion Hf; subst. discriminate.
    + intros _. apply Exists_app. right. now constructor.
Qed.

(** [F] against a visitor that stops at [D]; the cast of the same object to
    [B *]. *)
Lemma stop_ends_scan_witness :
  ([] = ([] : list (Event bool)) /\ inr false = (inr false : exn + bool) /\
   exists done later,
     accept_types (class_of (make F "F" 100)) false = done ++ LRef (Named "D") :: later /\
     map fst [(LRef (Named "F"), (inr true : exn + bool)); (LRef (Named "E"), inr true)] =
       filter (handles StopAtD) done) /\
  accept_recursive (make F "F" 100) (is_const (Named "B")) (traced (CastVisitor (Named "B")))
      (None, []) =
    (inr false, (Some (static_cast_ (make F "F" 100) (LRef (Named "B"))),
                 [(LRef (Named "B"), inr false)])).
Proof.
  destruct (@stop_ends_scan string (make F "F" 100)) as [H1 H2].
  split.
  - apply (H1 false StopAtD "" "FED" (inr false)
              [(LRef (Named "F"), inr true); (LRef (Named "E"), inr true);
               (LRef (Named "D"), inr false)]
              [(LRef (Named "F"), inr true); (LRef (Named "E"), inr true)] []
              (LRef (Named "D"))).
    + reflexivity.
    + reflexivity.
  - apply (H2 (Named "B")). simpl. auto.
Defined.

(** [F] against the visitor that never stops. *)
Lemma recursive_dispatch_answer_witness :
  (true = true <->
     Forall continues
       [(LRef (Named "F"), inr true); (LRef (Named "E"), inr true);
        (LRef (Named "D"), inr true); (LRef (Named "B"), inr true);
        (LRef (Named "A"), inr true)] /\
     map fst
       [(LRef (Named "F"), (inr true : exn + bool)); (LRef (Named "E"), inr true);
        (LRef (Named "D"), inr true); (LRef (Named "B"), inr true);
        (LRef (Named "A"), inr true)] =
     filter (handles (ABCDRecursiveVisitor true))
            (accept_types (class_of (make F "F" 100)) false)) /\
  (true = false <->
     Exists (fun e : Event bool => snd e = inr false)
       [(LRef (Named "F"), inr true); (LRef (Named "E"), inr true);
        (LRef (Named "D"), inr true); (LRef (Named "B"), inr true);
        (LRef (Named "A"), inr true)]).
Proof.
  apply (recursive_dispatch_answer (make F "F" 100) false (ABCDRecursiveVisitor true)
           "" "FEDBA" true).
  - discriminate.
  - reflexivity.
Defined.

(** ** C2 *)

Lemma never_stopping_calls {S} V this (visitor : VisitorPrototype S bool) types :
  (forall T x s, fst (visit_ visitor T x s) = inr true) ->
  forall s calls, exists s',
    visit_rest V this types (traced visitor) (s, calls) =
    (inr true,
     (s', calls ++ map (fun T => (T, inr true)) (filter (handles visitor) types))).
Proof.
  intros Hgo. induction types as [| T Rest IH]; intros s calls.
  - exists s. simpl. now rewrite app_nil_r.
  - rewrite visit_rest_cons, visit_recursive_step, asVisitorFor_handles, handles_traced.
    simpl filter. destruct (handles visitor T); [| apply IH].
    unfold bind. simpl.
    specialize (Hgo T (static_cast_ this T) s).
    destruct (visit_ visitor T (static_cast_ this T) s) as [r s1]. simpl in Hgo. subst r.
    simpl. destruct (IH s1 (calls ++ [(T, inr true)])) as (s' & E).
    exists s'. rewrite <- app_assoc in E. exact E.
Qed.

Lemma handles_same_set {S R} (visitor : VisitorPrototype S R) (args : list CType) :
  Permutation (Args visitor) args ->
  forall T, handles visitor T = existsb (TypeIndex_eqb T) args.
Proof.
  intros P T. apply eq_true_iff_eq. rewrite handles_In, existsb_eqb_In.
  split; apply Permutation_in; auto using Permutation_sym.
Qed.

(** C2.  [F] is declared over the shared join of [B] and [E], [E] over that
    of [D], [A] and [X], [D] over that of [A] and [B].  A recursive visitor
    that handles [A] to [F] and whose handlers never end the scan is called,
    on an [F], for [F], [E], [D], [B], [A] in this order and for nothing
    else; the names that the visitor of the tests collects read [FEDBA]. *)
Theorem scenario_FEDBA {S} (visitor : VisitorPrototype S bool) (this : Object) (s : S) :
  class_of this =
    Inheriting
      (DerivedVisitable "F"
         (VirtualJoinVisitable
            [Visitable "B";
             DerivedVisitable "E"
               (VirtualJoinVisitable
                  [DerivedVisitable "D" (VirtualJoinVisitable [Visitable "A"; Visitable "B"]);
                   Visitable "A"; Visitable "X"])])) ->
  Permutation (Args visitor) (map (fun n => LRef (Named n)) ["A"; "B"; "C"; "D"; "E"; "F"]) ->
  (forall T x s0, fst (visit_ visitor T x s0) = inr true) ->
  (exists s',
     accept_recursive this false (traced visitor) (s, []) =
     (inr true,
      (s', [(LRef (Named "F"), inr true); (LRef (Named "E"), inr true);
            (LRef (Named "D"), inr true); (LRef (Named "B"), inr true);
            (LRef (Named "A"), inr true)]))) /\
  accept_recursive this false (ABCDRecursiveVisitor true) "" = (inr true, "FEDBA").
Proof.
  intros Ec Hargs Hgo. split.
  - rewrite accept_recursive_visit_rest by (rewrite Ec; discriminate).
    destruct (never_stopping_calls (NamedClassOf false (class_of this)) this visitor
                (accept_types (class_of this) false) Hgo s []) as (s' & ->).
    exists s'. do 2 f_equal.
    rewrite (filter_ext _ _ (handles_same_set visitor _ Hargs)), Ec. reflexivity.
  - unfold accept_recursive. rewrite Ec. reflexivity.
Qed.

(** The [F] of the tests and their never-stopping visitor. *)
Lemma scenario_FEDBA_witness :
  (exists s',
     accept_recursive (make F "F" 100) false (traced (ABCDRecursiveVisitor true)) ("", []) =
     (inr true,
      (s', [(LRef (Named "F"), inr true); (LRef (Named "E"), inr true);
            (LRef (Named "D"), inr true); (LRef (Named "B"), inr true);
            (LRef (Named "A"), inr true)]))) /\
  accept_recursive (make F "F" 100) false (ABCDRecursiveVisitor true) "" =
    (inr true, "FEDBA").
Proof.
  apply (scenario_FEDBA (ABCDRecursiveVisitor true) (make F "F" 100) "").
  - reflexivity.
  - apply Permutation_refl.
  - reflexivity.
Defined.

(** The other expectations of [tests/visitor.cpp] on dispatch, as sections
    [ABCVisitor], [ABXVisitor] and [getFullTypeName] state them. *)
Example tests_ABCVisitor :
  map (fun h => snd (accept (make h "" 0) true ABCVisitor ""))
      [A; B; C; D; E; F; BX; XB; CX; XC] =
  ["A"; "B"; "C"; "A"; "A"; "B"; "B"; "B"; "C"; "C"].
Proof. reflexivity. Qed.

Example tests_ABXVisitor :
  map (fun h => snd (accept (make h "" 0) false ABXVisitor ""))
      [A; B; C; D; E; F; X; BX; XB; CX; XC] =
  ["A"; "B"; "A"; "A"; "A"; "B"; "X"; "B"; "X"; "A"; "X"].
Proof. reflexivity. Qed.

Example tests_getFullTypeName :
  map (fun h => snd (accept_recursive (make h "" 0) false (ABCDRecursiveVisitor true) ""))
      [A; B; C; D; E; F; X; BX; XB; CX; XC] =
  ["A"; "B"; "CA"; "DAB"; "EDAB"; "FEDBA"; ""; "B"; "B"; "CA"; "CA"].
Proof. reflexivity. Qed.

(** ** C5 *)

(** C5.  The pointer cast returns (a pointer or null) and never throws; it is
    null exactly when the reference cast throws
    [IncompatibleVisitorException], and it is an address exactly when the
    reference cast returns that address: the address of the [t &] view when
    the entity's list holds [t &]. *)
Theorem cast_pointer_reference (t : CType) (v : Object) :
  instantiable (class_of v) = true ->
  (exists p, visitor_cast_ptr t v = inr p) /\
  (visitor_cast_ptr t v = inr None <->
   exists n, visitor_cast_ref t v = inl (IncompatibleVisitorException n)) /\
  (forall a, visitor_cast_ptr t v = inr (Some a) <-> visitor_cast_ref t v = inr a) /\
  visitor_cast_ptr t v =
    inr (if existsb (TypeIndex_eqb (LRef t)) (accept_types (class_of v) (is_const t))
         then Some (static_cast_ v (LRef t)) else None).
Proof.
  intros Hi.
  pose proof (visitor_cast_ptr_lookup t v (instantiable_has_types _ _ Hi)) as E.
  unfold visitor_cast_ref. rewrite E.
  destruct (existsb _ _); repeat split; eauto; try discriminate; try congruence;
    intros (n & Hn); discriminate.
Qed.

Lemma cast_pointer_reference_witness :
  (exists p, visitor_cast_ptr (Named "B") (make D "D" 100) = inr p) /\
  (visitor_cast_ptr (Named "B") (make D "D" 100) = inr None <->
   exists n, visitor_cast_ref (Named "B") (make D "D" 100) =
             inl (IncompatibleVisitorException n)) /\
  (forall a, visitor_cast_ptr (Named "B") (make D "D" 100) = inr (Some a) <->
             visitor_cast_ref (Named "B") (make D "D" 100) = inr a) /\
  visitor_cast_ptr (Named "B") (make D "D" 100) =
    inr (if existsb (TypeIndex_eqb (LRef (Named "B")))
              (accept_types (class_of (make D "D" 100)) (is_const (Named "B")))
         then Some (static_cast_ (make D "D" 100) (LRef (Named "B"))) else None).
Proof.
  apply (cast_pointer_reference (Named "B") (make D "D" 100)). reflexivity.
Defined.

Example tests_VisitorCast :
  visitor_cast_ptr (Named "B") (make D "D" 100) = inr (Some 166) /\
  visitor_cast_ref (Named "B") (make D "D" 100) = inr 166 /\
  visitor_cast_ptr (Const (Named "B")) (make D "D" 100) = inr (Some 166) /\
  visitor_cast_ptr (Named "C") (make D "D" 100) = inr None /\
  visitor_cast_ref (Named "C") (make D "D" 100) =
    inl (IncompatibleVisitorException (NamedTypeOf (LRef (Named "C")))).
Proof. repeat split. Qed.

(** ** C6 *)


(** On the plain path the exception is made from the class template whose
    [accept] ran, [Visitable<X>] for an [X], which is a base of the entity's
    class and not that class. *)
Lemma plain_dispatch_error_names_accept_class :
  accept (make X "X" 100) false ABXVisitor' "" =
    (inl (IncompatibleVisitorException (NamedClassOf false (Inheriting (Visitable "X")))), "") /\
  ~ names_entity (NamedClassOf false (Inheriting (Visitable "X"))) (make X "X" 100).
Proof. split; [reflexivity | intros []]. Qed.



(** ** C10 *)

(** C10 as stated fails for a class that is not an entry of its own list:
    [CX] of the tests derives from [JoinVisitable<C, X>], whose list is that
    of the parents, and the cast of a [CX] object to [CX *] is null. *)
Lemma cast_to_join_class_is_null :
  ~ (forall v : Object,
       instantiable (class_of v) = true ->
       visitor_cast_ptr (Named (concrete v)) v = inr (Some (addressof v))).
Proof.
  intros H. specialize (H (make CX "CX" 100) eq_refl). discriminate H.
Qed.

(** The same for [NonVisitable], which has no ancestors at all. *)
Lemma cast_to_NonVisitable_is_null (base : Addr) :
  visitor_cast_ptr (Named (concrete (empty_visitable base))) (empty_visitable base) =
  inr None.
Proof. reflexivity. Qed.

Lemma self_heads_list (T : string) (h : Hierarchy) :
  h = Visitable T \/ (exists B, h = DerivedVisitable T B) ->
  exists rest, ReferenceTypes (InheritanceList h) = LRef (Named T) :: rest.
Proof.
  intros [-> | (B & ->)]; simpl; eauto.
Qed.

(** C10, amended.  An object whose most derived class [T] is declared as
    [Visitable<T>] or as [DerivedVisitable<T, B>] is cast to [T *] at its own
    address; so is every object whose class is an entry of its own list. *)
Theorem cast_round_trip (v : Object) (h : Hierarchy) :
  class_of v = Inheriting h ->
  (h = Visitable (concrete v) \/ (exists B, h = DerivedVisitable (concrete v) B)) \/
  In (LRef (Named (concrete v))) (ReferenceTypes (InheritanceList h)) ->
  visitor_cast_ptr (Named (concrete v)) v = inr (Some (addressof v)).
Proof.
  intros Ec Hself.
  assert (Hin : In (LRef (Named (concrete v))) (accept_types (class_of v) false)).
  { rewrite Ec. simpl. destruct Hself as [Hself | Hin]; auto.
    destruct (self_heads_list _ _ Hself) as (rest & ->). now left. }
  rewrite visitor_cast_ptr_lookup.
  - simpl is_const. apply existsb_eqb_In in Hin. now rewrite Hin.
  - right. simpl is_const. intros E. now rewrite E in Hin.
Qed.

Lemma cast_round_trip_witness :
  visitor_cast_ptr (Named (concrete (make F "F" 100))) (make F "F" 100) =
  inr (Some (addressof (make F "F" 100))).
Proof.
  apply (cast_round_trip (make F "F" 100) F).
  - reflexivity.
  - left. right. exists (VirtualJoinVisitable [B; E]). reflexivity.
Defined.

(** ** Merged inheritance lists *)

Lemma Contains_Types (T : string) (l : InheritanceList_t) :
  Contains T l = existsb (String.eqb T) (Types l).
Proof.
  unfold Contains, Types. induction l; simpl; congruence.
Qed.

Lemma Contains_In (T : string) (l : InheritanceList_t) :
  Contains T l = true <-> In T (Types l).
Proof.
  rewrite Contains_Types, existsb_exists. split.
  - intros (x & Hx & E). apply String.eqb_eq in E. now subst.
  - intros H. exists T. split; auto using String.eqb_refl.
Qed.

Lemma Contains_Permutation (T : string) (l l' : InheritanceList_t) :
  Permutation l l' -> Contains T l = Contains T l'.
Proof.
  intros P. apply eq_true_iff_eq. rewrite !Contains_In.
  split; apply Permutation_in; unfold Types;
    auto using Permutation_map, Permutation_sym.
Qed.

Lemma InsertOrdered_Permutation (x : OrderedType) (l : InheritanceList_t) :
  Permutation (InsertOrdered x l) (x :: l).
Proof.
  induction l as [| y l IH]; simpl; auto.
  destruct (snd y <? snd x)%nat; auto.
  rewrite IH. apply perm_swap.
Qed.

Lemma SortByOrder_snoc (l : InheritanceList_t) (x : OrderedType) :
  SortByOrder (l ++ [x]) = InsertOrdered x (SortByOrder l).
Proof. unfold SortByOrder. now rewrite fold_left_app. Qed.

Lemma SortByOrder_Permutation (l : InheritanceList_t) :
  Permutation (SortByOrder l) l.
Proof.
  induction l as [| x l IH] using rev_ind; [reflexivity |].
  rewrite SortByOrder_snoc, InsertOrdered_Permutation, IH.
  apply Permutation_cons_append.
Qed.

(** [StableMerge] is the first-occurrence scan followed by the stable sort. *)
Lemma MergeInto_sort (l acc : InheritanceList_t) :
  MergeInto (SortByOrder acc) l = SortByOrder (fold_left KeepFirst l acc).
Proof.
  unfold MergeInto. revert acc. induction l as [| x l IH]; intros acc; simpl; auto.
  unfold PushOrdered at 2, KeepFirst at 2.
  rewrite (Contains_Permutation _ _ _ (SortByOrder_Permutation acc)).
  destruct (Contains (fst x) acc).
  - apply IH.
  - rewrite <- SortByOrder_snoc. apply IH.
Qed.

Lemma StableMerge_sort (ls : list InheritanceList_t) :
  StableMerge ls = SortByOrder (FirstOccurrences ls).
Proof.
  unfold StableMerge, FirstOccurrences.
  change (@nil OrderedType) with (SortByOrder []) at 1.
  generalize (@nil OrderedType) as acc.
  induction ls as [| l ls IH]; intros acc; simpl; auto.
  rewrite MergeInto_sort. apply IH.
Qed.

Lemma Types_KeepFirst (acc : InheritanceList_t) (x : OrderedType) :
  Types (KeepFirst acc x) = append_if_absent (Types acc) (fst x).
Proof.
  unfold KeepFirst, append_if_absent. rewrite Contains_Types.
  destruct (existsb _ _); auto. unfold Types. now rewrite map_app.
Qed.

Lemma Types_fold_KeepFirst (l acc : InheritanceList_t) :
  Types (fold_left KeepFirst l acc) = fold_left append_if_absent (Types l) (Types acc).
Proof.
  revert acc. induction l as [| x l IH]; intros acc; simpl; auto.
  now rewrite IH, Types_KeepFirst.
Qed.

Lemma Types_FirstOccurrences (ls : list InheritanceList_t) :
  Types (FirstOccurrences ls) = first_occurrence_merge (map Types ls).
Proof.
  unfold FirstOccurrences, first_occurrence_merge.
  change (@nil string) with (Types []).
  generalize (@nil OrderedType) as acc.
  induction ls as [| l ls IH]; intros acc; simpl; auto.
  now rewrite IH, Types_fold_KeepFirst.
Qed.

Lemma append_if_absent_In (acc : list string) (T U : string) :
  In U (append_if_absent acc T) <-> In U acc \/ U = T.
Proof.
  unfold append_if_absent. destruct (existsb (String.eqb T) acc) eqn:E.
  - split; auto. intros [H | ->]; auto.
    apply existsb_exists in E. destruct E as (x & Hx & E).
    apply String.eqb_eq in E. now subst.
  - rewrite in_app_iff. simpl. intuition.
Qed.


Lemma fold_append_In (l acc : list string) (U : string) :
  In U (fold_left append_if_absent l acc) <-> In U acc \/ In U l.
Proof.
  revert acc. induction l as [| T l IH]; intros acc; simpl; [tauto |].
  rewrite IH, append_if_absent_In. intuition.
Qed.


Lemma first_occurrence_merge_In (ls : list (list string)) (U : string) :
  In U (first_occurrence_merge ls) <-> exists l, In l ls /\ In U l.
Proof.
  unfold first_occurrence_merge.
  assert (G : forall acc,
    In U (fold_left (fun acc l => fold_left append_if_absent l acc) ls acc) <->
    In U acc \/ exists l, In l ls /\ In U l).
  { induction ls as [| l ls IH]; intros acc; simpl.
    - split; auto. intros [H | (l & [] & _)]; auto.
    - rewrite IH, fold_append_In. split.
      + intros [[H | H] | (l' & H1 & H2)]; eauto.
      + intros [H | (l' & [<- | H1] & H2)]; eauto. }
  rewrite G. simpl. split; [intros [[] | H] |]; auto.
Qed.


Lemma Types_Merge_Permutation (ls : list InheritanceList_t) :
  Permutation (Types (Merge ls)) (first_occurrence_merge (map Types ls)).
Proof.
  rewrite <- Types_FirstOccurrences. unfold Merge.
  destruct (NestedJoin ls); [| reflexivity].
  rewrite StableMerge_sort. unfold Types.
  apply Permutation_map, SortByOrder_Permutation.
Qed.

(** ** C3 *)


(** With the first-occurrence list for [F], the never-stopping visitor of the
    tests would collect [FBEDA], not the [FEDBA] that [tests/visitor.cpp]
    expects. *)
Example first_occurrence_order_of_F :
  snd (visit_recursive (NamedClassOf false (Inheriting F)) (make F "F" 0)
         (map (fun n => LRef (Named n))
              ("F" :: first_occurrence_merge
                        (map (fun P => Types (InheritanceList P)) [B; E])))
         (ABCDRecursiveVisitor true) "") = "FBEDA".
Proof. reflexivity. Qed.



(** For parents that are all roots the merged list is the first-occurrence
    merge, as for [D] over [A] and [B]. *)
Example join_of_roots :
  Types (InheritanceList D) =
  "D" :: first_occurrence_merge (map (fun P => Types (InheritanceList P)) [A; B]).
Proof. reflexivity. Qed.

(** * Further properties of the header *)

(** ** Capability lookup *)

(** X1.  [asVisitorFor<T>()] answers the [Single<T>] base of the visitor
    exactly when [T] is one of the declared capabilities and [nullptr]
    exactly when it is not; it never answers the base of another type. *)
Theorem asVisitorFor_declared {S R} (visitor : VisitorPrototype S R) (T : CType) :
  (asVisitorFor visitor T = Some T <-> In T (Args visitor)) /\
  (asVisitorFor visitor T = None <-> ~ In T (Args visitor)) /\
  (forall U, asVisitorFor visitor T = Some U -> U = T).
Proof.
  rewrite asVisitorFor_handles, <- handles_In.
  destruct (handles visitor T); repeat split; try congruence; try discriminate.
Qed.

(** ** Entries without a capability *)

Lemma visit_filter {S} V this types (visitor : VisitorPrototype S unit) :
  visit V this types visitor = visit V this (filter (handles visitor) types) visitor.
Proof.
  induction types as [| T Rest IH]; auto.
  simpl filter. destruct (handles visitor T) eqn:HT.
  - simpl. now rewrite asVisitorFor_handles, HT.
  - simpl. rewrite asVisitorFor_handles, HT.
    destruct Rest; [reflexivity | exact IH].
Qed.

Lemma visit_rest_filter {S} V this types (visitor : VisitorPrototype S bool) :
  visit_rest V this types visitor =
  visit_rest V this (filter (handles visitor) types) visitor.
Proof.
  induction types as [| T Rest IH]; auto.
  simpl filter. destruct (handles visitor T) eqn:HT.
  - rewrite !visit_rest_cons, !visit_recursive_step, asVisitorFor_handles, HT.
    now rewrite IH.
  - rewrite visit_rest_cons, visit_recursive_step, asVisitorFor_handles, HT.
    exact IH.
Qed.

(** X2.  A plain dispatch depends on the type list only through the entries
    that are capabilities of the visitor and their order: two lists with the
    same such entries give the same dispatch, whatever else they hold. *)
Theorem plain_dispatch_skips_unhandled {S} V this types1 types2
    (visitor : VisitorPrototype S unit) :
  filter (handles visitor) types1 = filter (handles visitor) types2 ->
  visit V this types1 visitor = visit V this types2 visitor.
Proof.
  intros E. rewrite (visit_filter V this types1), (visit_filter V this types2).
  now rewrite E.
Qed.

Lemma plain_dispatch_skips_unhandled_witness :
  visit (NamedClassOf false (Inheriting XB)) (make XB "XB" 100)
        [LRef (Named "XB"); LRef (Named "X"); LRef (Named "B")] ABXVisitor' =
  visit (NamedClassOf false (Inheriting XB)) (make XB "XB" 100)
        [LRef (Named "B"); LRef (Named "X")] ABXVisitor'.
Proof.
  apply (plain_dispatch_skips_unhandled (NamedClassOf false (Inheriting XB))
           (make XB "XB" 100)
           [LRef (Named "XB"); LRef (Named "X"); LRef (Named "B")]
           [LRef (Named "B"); LRef (Named "X")] ABXVisitor').
  reflexivity.
Defined.

(** X3.  The same for a recursive dispatch over non-empty lists: entries
    that are no capability of the visitor have no influence on it. *)
Theorem recursive_dispatch_skips_unhandled {S} V this types1 types2
    (visitor : VisitorPrototype S bool) :
  types1 <> [] -> types2 <> [] ->
  filter (handles visitor) types1 = filter (handles visitor) types2 ->
  visit_recursive V this types1 visitor = visit_recursive V this types2 visitor.
Proof.
  intros H1 H2 E. rewrite !visit_recursive_nonempty by assumption.
  rewrite (visit_rest_filter V this types1), (visit_rest_filter V this types2).
  now rewrite E.
Qed.

Lemma recursive_dispatch_skips_unhandled_witness :
  visit_recursive (NamedClassOf false (Inheriting E)) (make E "E" 100)
        [LRef (Named "E"); LRef (Named "D"); LRef (Named "A"); LRef (Named "B");
         LRef (Named "X")] StopAtD =
  visit_recursive (NamedClassOf false (Inheriting E)) (make E "E" 100)
        [LRef (Named "X"); LRef (Named "E"); LRef (Named "D"); LRef (Named "A");
         LRef (Named "B")] StopAtD.
Proof.
  apply (recursive_dispatch_skips_unhandled (NamedClassOf false (Inheriting E))
           (make E "E" 100)
           [LRef (Named "E"); LRef (Named "D"); LRef (Named "A"); LRef (Named "B");
            LRef (Named "X")]
           [LRef (Named "X"); LRef (Named "E"); LRef (Named "D"); LRef (Named "A");
            LRef (Named "B")] StopAtD).
  - discriminate.
  - discriminate.
  - reflexivity.
Defined.

(** ** Recursive dispatch over a list in two parts *)

Lemma visit_rest_app {S} V this l1 l2 (visitor : VisitorPrototype S bool) :
  forall s,
    visit_rest V this (l1 ++ l2) visitor s =
    bind (visit_rest V this l1 visitor)
         (fun go => if go then visit_rest V this l2 visitor else ret false) s.
Proof.
  induction l1 as [| T Rest IH]; intros s.
  - reflexivity.
  - change ((T :: Rest) ++ l2) with (T :: (Rest ++ l2)).
    rewrite !visit_rest_cons, !visit_recursive_step, asVisitorFor_handles.
    destruct (handles visitor T); [| apply IH].
    unfold bind at 1 2 3.
    destruct (visit_ visitor T (static_cast_ this T) s) as [[e | [|]] s1]; simpl; auto.
Qed.

(** X4.  A recursive dispatch over [l1 ++ l2] is the dispatch over [l1]
    followed, when that one answered [true], by the dispatch over [l2] on
    the state it left; when the first part answered [false] or threw, the
    second part is not run. *)
Theorem recursive_dispatch_app {S} V this l1 l2 (visitor : VisitorPrototype S bool) (s : S) :
  l1 <> [] -> l2 <> [] ->
  visit_recursive V this (l1 ++ l2) visitor s =
  match visit_recursive V this l1 visitor s with
  | (inr true, s1) => visit_recursive V this l2 visitor s1
  | (inr false, s1) => (inr false, s1)
  | (inl e, s1) => (inl e, s1)
  end.
Proof.
  intros H1 H2.
  rewrite (visit_recursive_nonempty V this (l1 ++ l2))
    by (destruct l1; [congruence | discriminate]).
  rewrite (visit_recursive_nonempty V this l1), (visit_recursive_nonempty V this l2)
    by assumption.
  rewrite visit_rest_app. unfold bind.
  destruct (visit_rest V this l1 visitor s) as [[e | [|]] s1]; reflexivity.
Qed.

Lemma recursive_dispatch_app_witness :
  visit_recursive (NamedClassOf false (Inheriting F)) (make F "F" 100)
    ([LRef (Named "F"); LRef (Named "E")] ++ [LRef (Named "D"); LRef (Named "B")])
    StopAtD "" =
  match visit_recursive (NamedClassOf false (Inheriting F)) (make F "F" 100)
          [LRef (Named "F"); LRef (Named "E")] StopAtD "" with
  | (inr true, s1) =>
      visit_recursive (NamedClassOf false (Inheriting F)) (make F "F" 100)
        [LRef (Named "D"); LRef (Named "B")] StopAtD s1
  | (inr false, s1) => (inr false, s1)
  | (inl e, s1) => (inl e, s1)
  end.
Proof.
  apply (recursive_dispatch_app (NamedClassOf false (Inheriting F)) (make F "F" 100)
           [LRef (Named "F"); LRef (Named "E")] [LRef (Named "D"); LRef (Named "B")]
           StopAtD "").
  - discriminate.
  - discriminate.
Defined.

(** ** A recursive visitor that always stops *)


Lemma existsb_handles {S R} (visitor : VisitorPrototype S R) (types : TypeList) :
  existsb (handles visitor) types = false ->
  forall T, In T types -> handles visitor T = false.
Proof.
  intros H T HT. destruct (handles visitor T) eqn:E; auto.
  rewrite <- H. symmetry. apply existsb_exists. eauto.
Qed.



(** ** What a recursive dispatch throws, and the order of its calls *)

(** X6.  A recursive dispatch on an entity with a non-empty list throws only
    what a handler threw: when it ends in an exception [e], the last call
    made is for an entry of the list that is a capability, that call threw
    [e], and every call before it answered [true].  The dispatch adds no
    [IncompatibleVisitorException] of its own. *)
Theorem recursive_dispatch_rethrows {S} (this : Object) (const_ : bool)
    (visitor : VisitorPrototype S bool) (s s' : S) (e : exn)
    (calls : list (Event bool)) :
  accept_types (class_of this) const_ <> [] ->
  accept_recursive this const_ (traced visitor) (s, []) = (inl e, (s', calls)) ->
  exists before T,
    calls = before ++ [(T, inl e)] /\
    Forall continues before /\
    In T (accept_types (class_of this) const_) /\
    In T (Args visitor).
Proof.
  intros Hne Hrun. rewrite accept_recursive_visit_rest in Hrun by assumption.
  apply visit_rest_traced in Hrun. simpl in Hrun.
  destruct Hrun as (new & -> & [(Hr & _) | (_ & done & T & later & new' & E & HT & -> & _ & Hc)]).
  - discriminate.
  - exists new', T. repeat split; auto.
    + rewrite E. apply in_elt.
    + now apply handles_In.
Qed.

Lemma recursive_dispatch_rethrows_witness :
  exists before T,
    [(LRef (Named "F"), inr true); (LRef (Named "E"), inr true);
     (LRef (Named "D"), inl (OtherException "D"))] =
      before ++ [(T, (inl (OtherException "D") : exn + bool))] /\
    Forall continues before /\
    In T (accept_types (class_of (make F "F" 100)) false) /\
    In T (Args ThrowAtD).
Proof.
  apply (recursive_dispatch_rethrows (make F "F" 100) false ThrowAtD "" "FED"
           (OtherException "D")).
  - discriminate.
  - reflexivity.
Defined.

(** X7.  Whatever the outcome of a recursive dispatch, the handlers it
    called are, in order, an initial part of the capabilities among the
    entries of the entity's list: no entry is visited out of list order, and
    none is skipped before a later one is visited. *)
Theorem calls_follow_the_list {S} (this : Object) (const_ : bool)
    (visitor : VisitorPrototype S bool) (s s' : S) (r : exn + bool)
    (calls : list (Event bool)) :
  accept_recursive this const_ (traced visitor) (s, []) = (r, (s', calls)) ->
  exists rest,
    filter (handles visitor) (accept_types (class_of this) const_) =
    map fst calls ++ rest.
Proof.
  intros Hrun.
  destruct (accept_types (class_of this) const_) as [| T0 Rest] eqn:Et.
  { exists []. unfold accept_recursive in Hrun.
    destruct (class_of this); try rewrite Et in Hrun; inversion Hrun; reflexivity. }
  rewrite accept_recursive_visit_rest, Et in Hrun by (rewrite Et; discriminate).
  apply visit_rest_traced in Hrun. simpl in Hrun.
  destruct Hrun as (new & -> & [(_ & Hm & _) | (_ & done & T & later & new' & E & HT & -> & Hm & _)]).
  - exists []. now rewrite app_nil_r.
  - exists (filter (handles visitor) later).
    rewrite E, filter_app, map_app, Hm, <- app_assoc. simpl. now rewrite HT.
Qed.

Lemma calls_follow_the_list_witness :
  exists rest,
    filter (handles StopAtD) (accept_types (class_of (make F "F" 100)) false) =
    map fst [(LRef (Named "F"), (inr true : exn + bool)); (LRef (Named "E"), inr true);
             (LRef (Named "D"), inr false)] ++ rest.
Proof.
  apply (calls_follow_the_list (make F "F" 100) false StopAtD "" "FED" (inr false)).
  reflexivity.
Defined.

(** ** The calls of a plain dispatch *)

(** X8.  A plain dispatch calls at most one handler.  Either it calls none,
    leaves the state alone and throws its own [IncompatibleVisitorException],
    which happens when no entry of the list is a capability; or it makes one
    call, for an entry that is a capability, and the outcome and the state
    of the dispatch are those of that call. *)
Theorem plain_dispatch_calls_at_most_one {S} (this : Object) (const_ : bool)
    (plain : VisitorPrototype S unit) (s s' : S) (r : exn + unit)
    (calls : list (Event unit)) :
  accept this const_ (traced plain) (s, []) = (r, (s', calls)) ->
  (calls = [] /\ s' = s /\
   r = inl (IncompatibleVisitorException (NamedClassOf const_ (class_of this))) /\
   forall T, In T (accept_types (class_of this) const_) -> ~ In T (Args plain))
  \/
  (exists T,
     calls = [(T, r)] /\
     In T (accept_types (class_of this) const_) /\ In T (Args plain) /\
     visit_ plain T (static_cast_ this T) s = (r, s')).
Proof.
  unfold accept. intros Hrun.
  destruct (existsb (handles plain) (accept_types (class_of this) const_)) eqn:Ex.
  - right. apply existsb_exists in Ex.
    destruct (first_match_split _ _ Ex) as (pre & T & post & E & Hpre & HT).
    rewrite E, (visit_first_match _ _ pre T post (traced plain)) in Hrun by assumption.
    simpl in Hrun.
    destruct (visit_ plain T (static_cast_ this T) s) as [r1 s1] eqn:Ev.
    inversion Hrun; subst. exists T. repeat split; auto.
    + rewrite E. apply in_elt.
    + now apply handles_In.
  - left. pose proof (existsb_handles _ _ Ex) as Hno.
    rewrite visit_no_match in Hrun by assumption.
    inversion Hrun; subst. repeat split; auto.
    intros T HT HA. apply handles_In in HA. rewrite (Hno T HT) in HA. discriminate.
Qed.

Lemma plain_dispatch_calls_at_most_one_witness :
  (([(LRef (Named "A"), inr tt)] : list (Event unit)) = [] /\ "A" = "" /\
   inr tt = inl (IncompatibleVisitorException
                   (NamedClassOf false (class_of (make C "C" 100)))) /\
   forall T, In T (accept_types (class_of (make C "C" 100)) false) ->
             ~ In T (Args ABXVisitor))
  \/
  (exists T,
     [(LRef (Named "A"), inr tt)] = [(T, (inr tt : exn + unit))] /\
     In T (accept_types (class_of (make C "C" 100)) false) /\ In T (Args ABXVisitor) /\
     visit_ ABXVisitor T (static_cast_ (make C "C" 100) T) "" = (inr tt, "A")).
Proof.
  apply (plain_dispatch_calls_at_most_one (make C "C" 100) false ABXVisitor "" "A"
           (inr tt) [(LRef (Named "A"), inr tt)]).
  reflexivity.
Defined.

(** ** The message of the exception *)

Lemma what_keeps_message (name : NamedTypeIndex -> string) (t : NamedTypeIndex)
    (e : ExceptionObject) :
  typeIndex e = t ->
  buffer e = "" \/
  buffer e = ("IncompatibleVisitor: incompatible visitor for " ++ name t)%string ->
  fst (what name e) = ("IncompatibleVisitor: incompatible visitor for " ++ name t)%string /\
  typeIndex (snd (what name e)) = t /\
  buffer (snd (what name e)) =
    ("IncompatibleVisitor: incompatible visitor for " ++ name t)%string.
Proof.
  intros Ht [Hb | Hb]; unfold what; rewrite Hb; subst t; simpl; auto.
Qed.

(** X9.  [what()] on a freshly constructed exception answers
    ["IncompatibleVisitor: incompatible visitor for "] followed by the name
    of the type the exception was built from, and so does every later call:
    the message is built once and the buffer keeps it. *)
Theorem what_is_stable (name : NamedTypeIndex -> string) (t : NamedTypeIndex) (n : nat) :
  fst (what name (Nat.iter n (fun e => snd (what name e)) (construct t))) =
  ("IncompatibleVisitor: incompatible visitor for " ++ name t)%string.
Proof.
  assert (Inv : typeIndex (Nat.iter n (fun e => snd (what name e)) (construct t)) = t /\
                (buffer (Nat.iter n (fun e => snd (what name e)) (construct t)) = "" \/
                 buffer (Nat.iter n (fun e => snd (what name e)) (construct t)) =
                 ("IncompatibleVisitor: incompatible visitor for " ++ name t)%string)).
  { induction n as [| n (IHt & IHb)]; simpl; auto.
    destruct (what_keeps_message name t _ IHt IHb) as (_ & Ht & Hb). auto. }
  destruct Inv as (Ht & Hb).
  now destruct (what_keeps_message name t _ Ht Hb).
Qed.

(** ** What an object can be cast to *)

(** Induction over a class with the property at hand for every base of a
    join. *)
Lemma Hierarchy_bases_ind (P : Hierarchy -> Prop) :
  (forall T, P (Visitable T)) ->
  (forall T B, P B -> P (DerivedVisitable T B)) ->
  (forall Bases, Forall P Bases -> P (JoinVisitable Bases)) ->
  (forall Bases, Forall P Bases -> P (VirtualJoinVisitable Bases)) ->
  (forall T Inheritance, P (ProxyVisitable T Inheritance)) ->
  forall h, P h.
Proof.
  intros HV HD HJ HVJ HP. fix IH 1.
  intros [T | T B | Bases | Bases | T l].
  - apply HV.
  - apply HD, IH.
  - apply HJ. induction Bases as [| b Bases IHB]; constructor; [apply IH | exact IHB].
  - apply HVJ. induction Bases as [| b Bases IHB]; constructor; [apply IH | exact IHB].
  - apply HP.
Qed.

Lemma Merge_In (ls : list InheritanceList_t) (U : string) :
  In U (Types (Merge ls)) <-> exists l, In l ls /\ In U (Types l).
Proof.
  split.
  - intros H. apply (Permutation_in _ (Types_Merge_Permutation ls)) in H.
    apply first_occurrence_merge_In in H. destruct H as (l' & Hl & HU).
    apply in_map_iff in Hl. destruct Hl as (l & <- & Hl). eauto.
  - intros (l & Hl & HU).
    apply (Permutation_in _ (Permutation_sym (Types_Merge_Permutation ls))).
    apply first_occurrence_merge_In. exists (Types l). split; auto.
    now apply in_map.
Qed.

Lemma join_ancestors (Bases : list Hierarchy) (U : string) :
  Forall (fun h => In U (Types (InheritanceList h)) <-> In U (ancestors h)) Bases ->
  In U (Types (Merge (map InheritanceList Bases))) <->
  In U (List.concat (map ancestors Bases)).
Proof.
  intros HB. rewrite Forall_forall in HB. rewrite Merge_In, in_concat. split.
  - intros (l & Hl & HU). apply in_map_iff in Hl. destruct Hl as (b & <- & Hb).
    exists (ancestors b). split; [now apply in_map | now apply HB].
  - intros (l & Hl & HU). apply in_map_iff in Hl. destruct Hl as (b & <- & Hb).
    exists (InheritanceList b). split; [now apply in_map | now apply HB].
Qed.

Lemma InheritanceList_ancestors (h : Hierarchy) (U : string) :
  In U (Types (InheritanceList h)) <-> In U (ancestors h).
Proof.
  induction h using Hierarchy_bases_ind.
  - reflexivity.
  - simpl. now rewrite IHh.
  - now apply join_ancestors.
  - now apply join_ancestors.
  - reflexivity.
Qed.

Lemma existsb_view (const_ : bool) (T : string) (l : InheritanceList_t) :
  existsb (TypeIndex_eqb (view const_ T))
          (if const_ then ConstReferenceTypes l else ReferenceTypes l) =
  existsb (String.eqb T) (Types l).
Proof.
  destruct const_; induction l as [| a l IH]; simpl; auto; now rewrite <- IH.
Qed.

Lemma existsb_same_members (T : string) (l l' : list string) :
  (In T l <-> In T l') ->
  existsb (String.eqb T) l = existsb (String.eqb T) l'.
Proof.
  intros H. apply eq_true_iff_eq. rewrite !existsb_exists. split.
  - intros (x & Hx & E). apply String.eqb_eq in E. subst x.
    exists T. split; [now apply H | apply String.eqb_refl].
  - intros (x & Hx & E). apply String.eqb_eq in E. subst x.
    exists T. split; [now apply H | apply String.eqb_refl].
Qed.

(** X10.  An object of a visitable class can be cast, by pointer, exactly to
    the classes it derives from (its own class, when that is one of them,
    and the bases of its bases, through any depth of joins): the cast to
    [T *] and the cast to [const T *] both give the [T] view for such a
    class and null for every other. *)
Theorem cast_succeeds_for_ancestors (v : Object) (h : Hierarchy) (T : string) :
  class_of v = Inheriting h ->
  instantiable (class_of v) = true ->
  visitor_cast_ptr (Named T) v =
    inr (if existsb (String.eqb T) (ancestors h)
         then Some (static_cast_ v (LRef (Named T))) else None) /\
  visitor_cast_ptr (Const (Named T)) v =
    inr (if existsb (String.eqb T) (ancestors h)
         then Some (static_cast_ v (LRef (Const (Named T)))) else None).
Proof.
  intros Ec Hi.
  rewrite <- (existsb_same_members T _ _ (InheritanceList_ancestors h T)).
  split.
  - rewrite visitor_cast_ptr_lookup by now apply instantiable_has_types.
    rewrite Ec. simpl is_const. cbv iota. unfold accept_types.
    now rewrite (existsb_view false T).
  - rewrite visitor_cast_ptr_lookup by now apply instantiable_has_types.
    rewrite Ec. simpl is_const. cbv iota. unfold accept_types.
    now rewrite (existsb_view true T).
Qed.

Lemma cast_succeeds_for_ancestors_witness :
  visitor_cast_ptr (Named "A") (make E "E" 100) =
    inr (if existsb (String.eqb "A") (ancestors E)
         then Some (static_cast_ (make E "E" 100) (LRef (Named "A"))) else None) /\
  visitor_cast_ptr (Const (Named "A")) (make E "E" 100) =
    inr (if existsb (String.eqb "A") (ancestors E)
         then Some (static_cast_ (make E "E" 100) (LRef (Const (Named "A")))) else None).
Proof.
  apply (cast_succeeds_for_ancestors (make E "E" 100) E "A").
  - reflexivity.
  - reflexivity.
Defined.

(** The table of the [VisitorCast] test: each of the eight test classes
    against each of the six targets, non-null exactly for the bases. *)
Example tests_VisitorCast_table :
  map (fun h =>
         map (fun T => match visitor_cast_ptr (Named T) (make h "" 0) with
                       | inr (Some _) => true
                       | _ => false
                       end)
             ["A"; "B"; "C"; "D"; "E"; "F"])
      [A; B; C; D; E; F; BX; CX] =
  [[true; false; false; false; false; false];
   [false; true; false; false; false; false];
   [true; false; true; false; false; false];
   [true; true; false; true; false; false];
   [true; true; false; true; true; false];
   [true; true; false; true; true; true];
   [false; true; false; false; false; false];
   [true; false; true; false; false; false]].
Proof. reflexivity. Qed.

(** X11.  [NonVisitable] can be cast to nothing: for every target the
    pointer cast is null and the reference cast throws
    [IncompatibleVisitorException], built from the target type. *)
Theorem NonVisitable_cast (v : Object) (t : CType) :
  class_of v = NonVisitable ->
  visitor_cast_ptr t v = inr None /\
  visitor_cast_ref t v = inl (IncompatibleVisitorException (NamedTypeOf (LRef t))).
Proof.
  intros Ec. unfold visitor_cast_ref, visitor_cast_ptr, accept_recursive.
  rewrite Ec. split; reflexivity.
Qed.

Lemma NonVisitable_cast_witness :
  visitor_cast_ptr (Named "int") (empty_visitable 7) = inr None /\
  visitor_cast_ref (Named "int") (empty_visitable 7) =
    inl (IncompatibleVisitorException (NamedTypeOf (LRef (Named "int")))).
Proof.
  apply (NonVisitable_cast (empty_visitable 7) (Named "int")). reflexivity.
Defined.

(** ** Dispatch along the inheritance *)

Lemma accept_types_view (h : Hierarchy) (const_ : bool) :
  accept_types (Inheriting h) const_ = map (view const_) (Types (InheritanceList h)).
Proof.
  unfold accept_types, ReferenceTypes, ConstReferenceTypes, Types, view.
  rewrite map_map. now destruct const_.
Qed.

Lemma visit_skip {S} V this T Rest (visitor : VisitorPrototype S unit) :
  handles visitor T = false -> Rest <> [] ->
  visit V this (T :: Rest) visitor = visit V this Rest visitor.
Proof.
  intros HT Hne. simpl. rewrite asVisitorFor_handles, HT.
  destruct Rest; congruence.
Qed.

(** X12.  A visitor without the capability for the class [T] of a
    [DerivedVisitable<T, B>] object treats the object as its base: the plain
    dispatch is the one over the list of [B], and so is the recursive one. *)
Theorem derived_falls_back_to_base {S} (this : Object) (const_ : bool)
    (T : string) (B : Hierarchy)
    (plain : VisitorPrototype S unit) (recursive : VisitorPrototype S bool) :
  class_of this = Inheriting (DerivedVisitable T B) ->
  accept_types (Inheriting B) const_ <> [] ->
  (~ In (view const_ T) (Args plain) ->
   accept this const_ plain =
   visit (NamedClassOf const_ (class_of this)) this
         (accept_types (Inheriting B) const_) plain) /\
  (~ In (view const_ T) (Args recursive) ->
   accept_recursive this const_ recursive =
   visit_recursive (NamedClassOf const_ (class_of this)) this
         (accept_types (Inheriting B) const_) recursive).
Proof.
  intros Ec Hne.
  assert (El : accept_types (class_of this) const_ =
               view const_ T :: accept_types (Inheriting B) const_).
  { rewrite Ec, !accept_types_view. reflexivity. }
  split; intros Hno.
  - unfold accept. rewrite El. apply visit_skip; auto.
    apply not_true_is_false. now rewrite handles_In.
  - rewrite accept_recursive_visit_rest by (rewrite El; discriminate).
    rewrite El, visit_rest_cons, visit_recursive_step, asVisitorFor_handles.
    assert (Hh : handles recursive (view const_ T) = false)
      by (apply not_true_is_false; now rewrite handles_In).
    rewrite Hh. symmetry. now apply visit_recursive_nonempty.
Qed.

(** Scenario 2 of the tests seen from the visitor for [A], [B] and [X]: the
    [C] object is handled as an [A]. *)
Lemma derived_falls_back_to_base_witness :
  accept (make C "C" 100) false ABXVisitor =
    visit (NamedClassOf false (class_of (make C "C" 100))) (make C "C" 100)
          (accept_types (Inheriting A) false) ABXVisitor /\
  accept_recursive (make C "C" 100) false (CastVisitor (Named "A")) =
    visit_recursive (NamedClassOf false (class_of (make C "C" 100))) (make C "C" 100)
          (accept_types (Inheriting A) false) (CastVisitor (Named "A")).
Proof.
  destruct (derived_falls_back_to_base (S := string) (make C "C" 100) false "C" A
              ABXVisitor (ABCDRecursiveVisitor true)) as [H1 _];
    [reflexivity | discriminate |].
  destruct (derived_falls_back_to_base (S := option Addr) (make C "C" 100) false "C" A
              {| Args := []; visit_ := fun _ _ s => (inr tt, s) |}
              (CastVisitor (Named "A"))) as [_ H2];
    [reflexivity | discriminate |].
  split.
  - apply H1. simpl. intuition discriminate.
  - apply H2. simpl. intuition discriminate.
Defined.

Lemma In_accept_types (h : Hierarchy) (const_ : bool) (X0 : CType) :
  In X0 (accept_types (Inheriting h) const_) <->
  exists U, X0 = view const_ U /\ In U (ancestors h).
Proof.
  rewrite accept_types_view, in_map_iff. split.
  - intros (U & <- & HU). exists U. split; auto. now apply InheritanceList_ancestors.
  - intros (U & -> & HU). exists U. split; auto. now apply InheritanceList_ancestors.
Qed.

(** X13.  A plain dispatch on an object of a visitable class finds a handler
    exactly when the visitor has a capability for one of the classes the
    object derives from: without any, it throws
    [IncompatibleVisitorException] and leaves the state alone; with one, it
    is the call of the handler for such a class on that view of the
    object. *)
Theorem dispatch_matches_ancestors {S} (this : Object) (const_ : bool)
    (h : Hierarchy) (visitor : VisitorPrototype S unit) :
  class_of this = Inheriting h ->
  ((forall U, In U (ancestors h) -> ~ In (view const_ U) (Args visitor)) ->
   accept this const_ visitor =
   throw (IncompatibleVisitorException (NamedClassOf const_ (class_of this)))) /\
  ((exists U, In U (ancestors h) /\ In (view const_ U) (Args visitor)) ->
   exists U, In U (ancestors h) /\ In (view const_ U) (Args visitor) /\
     accept this const_ visitor =
     visit_ visitor (view const_ U) (static_cast_ this (view const_ U))).
Proof.
  intros Ec. unfold accept. rewrite Ec. split.
  - intros Hno. apply visit_no_match. intros X0 HX.
    apply In_accept_types in HX. destruct HX as (U & -> & HU).
    apply not_true_is_false. rewrite handles_In. now apply Hno.
  - intros (U & HU & HA).
    destruct (first_match_split (handles visitor) (accept_types (Inheriting h) const_))
      as (pre & X0 & post & E & Hpre & HX).
    { exists (view const_ U). split; [| now apply handles_In].
      apply In_accept_types. eauto. }
    assert (HIn : In X0 (accept_types (Inheriting h) const_))
      by (rewrite E; apply in_elt).
    apply In_accept_types in HIn. destruct HIn as (W & -> & HW).
    exists W. repeat split; auto.
    + now apply handles_In.
    + rewrite E. now apply visit_first_match.
Qed.

Lemma dispatch_matches_ancestors_witness :
  accept (make X "X" 100) true ABCVisitor =
    throw (IncompatibleVisitorException (NamedClassOf true (class_of (make X "X" 100)))) /\
  exists U, In U (ancestors F) /\ In (view true U) (Args ABCVisitor) /\
    accept (make F "F" 100) true ABCVisitor =
    visit_ ABCVisitor (view true U) (static_cast_ (make F "F" 100) (view true U)).
Proof.
  destruct (dispatch_matches_ancestors (make X "X" 100) true X ABCVisitor eq_refl)
    as [H1 _].
  destruct (dispatch_matches_ancestors (make F "F" 100) true F ABCVisitor eq_refl)
    as [_ H2].
  split.
  - apply H1. simpl. intros U [<- | []] H. simpl in H. intuition discriminate.
  - apply H2. exists "B". simpl. auto 10.
Defined.

(** ** Casting a [DataVisitable] *)

(** X14.  On a [DataVisitable] the cast to [t &] looks for the reference
    type [t &] itself in the list that fits the constness of [t]: [Types]
    for a mutable target, [ConstTypes] for a [const] one.  It returns the
    [t &] view when the entry is there and throws otherwise, also when the
    list holds the value type [t]. *)
Theorem DataVisitable_cast (v : Object) (T : string) (Ts CTs : TypeList) (t : CType) :
  class_of v = DataVisitable T Ts CTs ->
  Ts <> [] -> CTs <> [] ->
  visitor_cast_ref t v =
  if existsb (TypeIndex_eqb (LRef t)) (if is_const t then CTs else Ts)
  then inr (static_cast_ v (LRef t))
  else inl (IncompatibleVisitorException (NamedTypeOf (LRef t))).
Proof.
  intros Ec HT HC. unfold visitor_cast_ref.
  rewrite visitor_cast_ptr_lookup.
  - rewrite Ec. simpl accept_types. now destruct (existsb _ _).
  - right. rewrite Ec. simpl. now destruct (is_const t).
Qed.

(** The [DataVisitable<int, ...>] of the tests: the cast to [int &] finds
    the data, the cast to [char &] finds nothing although [char] is
    listed. *)
Lemma DataVisitable_cast_witness :
  visitor_cast_ref (Named "int")
    {| class_of := DataVisitable "int"
                     [LRef (Named "int"); Named "char"; Named "int"; Named "float"]
                     [LRef (Const (Named "int")); Named "char"; Named "int"; Named "float"];
       concrete := "DataVisitable"; static_cast_ := fun _ => 42 |} = inr 42 /\
  visitor_cast_ref (Named "char")
    {| class_of := DataVisitable "int"
                     [LRef (Named "int"); Named "char"; Named "int"; Named "float"]
                     [LRef (Const (Named "int")); Named "char"; Named "int"; Named "float"];
       concrete := "DataVisitable"; static_cast_ := fun _ => 42 |} =
    inl (IncompatibleVisitorException (NamedTypeOf (LRef (Named "char")))).
Proof.
  split.
  - apply (DataVisitable_cast
             {| class_of := DataVisitable "int"
                     [LRef (Named "int"); Named "char"; Named "int"; Named "float"]
                     [LRef (Const (Named "int")); Named "char"; Named "int"; Named "float"];
                concrete := "DataVisitable"; static_cast_ := fun _ => 42 |}
             "int" _ _ (Named "int") eq_refl); discriminate.
  - apply (DataVisitable_cast
             {| class_of := DataVisitable "int"
                     [LRef (Named "int"); Named "char"; Named "int"; Named "float"]
                     [LRef (Const (Named "int")); Named "char"; Named "int"; Named "float"];
                concrete := "DataVisitable"; static_cast_ := fun _ => 42 |}
             "int" _ _ (Named "char") eq_refl); discriminate.
Defined.
